(** * Recipe server: the request handlers of [src/app.js]

    A shallow embedding of the Express handlers for
    [POST /create-recipe], [PUT /update-recipe/:id],
    [PATCH /patch-recipe/:id] and [DELETE /delete-recipe/:id], written
    over an abstract PostgreSQL store, followed by the properties of the
    specification that concern them. *)

From Stdlib Require Import ZArith String Ascii DecimalString.
From stdpp Require Import gmap strings list fin_maps.

Set Warnings "-register-all".
Local Open Scope string_scope.

(** ** JavaScript values *)

Module JS.

(** The values a request can carry: what [express.json()] parses out of
    a body, together with [undefined], which reading an absent property
    yields.  Numbers are kept as integers; no handler computes with
    them. *)
Inductive jsval : Type :=
| JUndefined
| JNull
| JBool (b : bool)
| JNum (n : Z)
| JStr (s : string)
| JArr (elems : list jsval)
| JObj (props : list (string * jsval)).

(** An object is the list of its own enumerable properties, in the order
    [Object.keys] enumerates them. *)
Abbreviation object := (list (string * jsval)).

(** [Object.keys(o)] *)
Definition Object_keys (o : object) : list string := fst <$> o.

(** [o[key]]: the first binding of [key], [undefined] when there is
    none. *)
Fixpoint get (o : object) (key : string) : jsval :=
  match o with
  | [] => JUndefined
  | (k, v) :: o' => if String.eqb k key then v else get o' key
  end.

(** [v !== null] *)
Definition strict_ne_null (v : jsval) : bool :=
  match v with
  | JNull => false
  | _ => true
  end.

(** [arr.indexOf(x)] on an array of strings: the position of the first
    occurrence, [-1] when there is none. *)
Fixpoint indexOf (arr : list string) (x : string) : Z :=
  match arr with
  | [] => (-1)%Z
  | y :: arr' =>
      if String.eqb y x then 0%Z
      else
        let i := indexOf arr' x in
        if (i <? 0)%Z then (-1)%Z else (i + 1)%Z
  end.

(** An integer inside a template literal: its decimal digits. *)
Definition show_int (z : Z) : string := NilZero.string_of_int (Z.to_int z).

(** [arr.join(sep)] on an array of strings. *)
Fixpoint join (sep : string) (arr : list string) : string :=
  match arr with
  | [] => ""
  | [x] => x
  | x :: arr' => x +:+ sep +:+ join sep arr'
  end.

(** Whether converting [v] to a string, as [Array.prototype.join] does
    with each element that is neither [null] nor [undefined], throws a
    [TypeError].  An array converts its elements in turn; a parsed
    object converts through [Object.prototype.toString] unless an own
    property named [toString] shadows it, and such a property is never
    callable. *)
Fixpoint ToString_throws (v : jsval) : bool :=
  match v with
  | JArr elems => existsb ToString_throws elems
  | JObj props => existsb (fun kv => String.eqb (fst kv) "toString") props
  | _ => false
  end.

End JS.
Import JS.

(** ** The statement of the PATCH handler (src/app.js, lines 162-173) *)

(** [Object.keys(vals).filter((key) => vals[key] !== null)] *)
Definition keys (vals : object) : list string :=
  List.filter (fun key => strict_ne_null (get vals key)) (Object_keys vals).

(** [keys.map((key) => vals[key])] *)
Definition values (vals : object) : list jsval :=
  (fun key => get vals key) <$> keys vals.

(** [keys.map((key) => `${key} = $${keys.indexOf(key) + 1}`)] *)
Definition keysWithId (vals : object) : list string :=
  (fun key => key +:+ " = $" +:+ show_int (indexOf (keys vals) key + 1))
    <$> keys vals.

(** [keysWithId.join(', ')] *)
Definition keysWithIdString (vals : object) : string :=
  join ", " (keysWithId vals).

(** [keysWithIdString + ` WHERE id = ${id}`] *)
Definition keysWithIdStringWithId (id : string) (vals : object) : string :=
  keysWithIdString vals +:+ " WHERE id = " +:+ id.

(** The two arguments of [client.query] at line 171: the statement text
    [`UPDATE recipes SET ${keysWithIdStringWithId}`] and the bound
    parameters [values]. *)
Definition patch_statement (id : string) (vals : object) : string * list jsval :=
  ("UPDATE recipes SET " +:+ keysWithIdStringWithId id vals, values vals).

(** ** The store behind the connection pool *)

(** The answer of a successful query: [result.rows] and
    [result.rowCount]. *)
Record pg_result : Type := { rows : list object; rowCount : nat }.

(** The PostgreSQL server as the handlers see it through [pg]:
    [pool.connect()] either resolves with a client or rejects, and
    [client.query(text, params)] either resolves with a result or
    rejects, possibly changing the stored rows. *)
Class Store (db : Type) : Type := {
  pg_connect : db -> option string;
  pg_query : string -> list jsval -> db -> (string + pg_result) * db
}.

(** What a [catch] clause can receive. *)
Inductive exn : Type :=
| ConnectError (msg : string)
| QueryError (msg : string)
| TypeError.

Inductive completion (A : Type) : Type :=
| Normal (a : A)
| Throw (e : exn).
Arguments Normal {A} a.
Arguments Throw {A} e.

Inductive log_arg : Type :=
| LogVal (v : jsval)
| LogExn (e : exn).

(** One call of [console.log] or [console.error]. *)
Record log_line : Type := { line_text : string; line_args : list log_arg }.

(** [req.params.id], [req.body] and the [req.file] that
    [upload.single('photo')] leaves behind for a multipart upload. *)
Record request : Type := {
  params_id : string;
  body : object;
  file : option string
}.

(** What [res.status(code).send(text)] hands to the caller; [res.send]
    alone answers 200. *)
Record response : Type := { status : nat; sent : string }.

(** The state a handler runs in: the store, the number of clients taken
    from the pool and not yet given back, the statements sent so far
    (oldest first) and the console. *)
Record world (db : Type) : Type := {
  store : db;
  leased : nat;
  issued : list (string * list jsval);
  console : list log_line
}.
Arguments store {db} w.
Arguments leased {db} w.
Arguments issued {db} w.
Arguments console {db} w.

Section Handlers.
Context {db : Type} `{!Store db}.

(** A computation that may throw, over the world. *)
Definition M (A : Type) : Type := world db -> completion A * world db.

#[global] Instance M_ret : MRet M := fun _ a w => (Normal a, w).

#[global] Instance M_bind : MBind M := fun _ _ f m w =>
  match m w with
  | (Normal a, w') => f a w'
  | (Throw e, w') => (Throw e, w')
  end.

Definition throw {A : Type} (e : exn) : M A := fun w => (Throw e, w).

(** [try { m } catch (error) { h error }] *)
Definition try_catch {A : Type} (m : M A) (h : exn -> M A) : M A := fun w =>
  match m w with
  | (Normal a, w') => (Normal a, w')
  | (Throw e, w') => h e w'
  end.

(** [await pool.connect()], for a call that settles: it resolves with a
    client, which is then out of the pool, or it rejects.  A call that
    stays pending, as on a pool whose clients are all out with no
    timeout set, is not among these outcomes; the properties below that
    speak of a client at hand are about calls that resolved. *)
Definition pool_connect : M unit := fun w =>
  match pg_connect (store w) with
  | None =>
      (Normal (),
       {| store := store w; leased := S (leased w);
          issued := issued w; console := console w |})
  | Some msg => (Throw (ConnectError msg), w)
  end.

(** [await client.query(text, params)] *)
Definition client_query (text : string) (params : list jsval) : M pg_result :=
  fun w =>
    let '(answer, s') := pg_query text params (store w) in
    let w' := {| store := s'; leased := leased w;
                 issued := issued w ++ [(text, params)];
                 console := console w |} in
    match answer with
    | inl msg => (Throw (QueryError msg), w')
    | inr result => (Normal result, w')
    end.

(** [client.release()] *)
Definition client_release : M unit := fun w =>
  (Normal (),
   {| store := store w; leased := pred (leased w);
      issued := issued w; console := console w |}).

(** [console.log(text, ...args)] and [console.error(text, ...args)] *)
Definition console_log (text : string) (args : list log_arg) : M unit := fun w =>
  (Normal (),
   {| store := store w; leased := leased w; issued := issued w;
      console := console w ++ [{| line_text := text; line_args := args |}] |}).

(** [result.rows[0].id]: reading [id] off [undefined] throws. *)
Definition rows_0_id (result : pg_result) : M jsval :=
  match rows result with
  | [] => throw TypeError
  | row :: _ => mret (get row "id")
  end.

(** [values.join(', ')], of which only the completion matters: the
    joined string is not used afterwards. *)
Definition values_join (vs : list jsval) : M unit :=
  if existsb ToString_throws vs then throw TypeError else mret ().

Definition send (code : nat) (text : string) : M response :=
  mret {| status := code; sent := text |}.

(** The outermost [try]/[catch] of a handler: the handler of the
    [catch] clause logs and answers, and does not throw. *)
Definition handler (m : M response) (h : exn -> world db -> response * world db)
  : world db -> response * world db := fun w =>
  match m w with
  | (Normal r, w') => (r, w')
  | (Throw e, w') => h e w'
  end.

Definition fail_with (log text : string) (error : exn) (w : world db)
  : response * world db :=
  ({| status := 500; sent := text |},
   {| store := store w; leased := leased w; issued := issued w;
      console := console w ++ [{| line_text := log; line_args := [LogExn error] |}] |}).

Definition insert_sql : string :=
  "INSERT INTO recipes (name, description, photo) VALUES ($1, $2, $3) RETURNING id".
Definition update_sql : string :=
  "UPDATE recipes SET name = $1, description = $2, photo = $3 WHERE id = $4".
Definition delete_sql : string :=
  "DELETE FROM recipes WHERE id = $1".

(** [app.post('/create-recipe', ...)], lines 92-112 *)
Definition create_recipe (req : request) : world db -> response * world db :=
  handler
    (let name := get (body req) "name" in
     let description := get (body req) "description" in
     let photo := get (body req) "photo" in
     _ ← pool_connect;
     result ← client_query insert_sql [name; description; photo];
     recipeId ← rows_0_id result;
     _ ← console_log "Inserted with ID:" [LogVal recipeId];
     _ ← client_release;
     send 200 "Recipe created successfully")
    (fail_with "Error creating recipe:" "Error creating recipe").

(** [app.put('/update-recipe/:id', ...)], lines 120-148 *)
Definition update_recipe (req : request) : world db -> response * world db :=
  handler
    (let id := params_id req in
     let name := get (body req) "name" in
     let description := get (body req) "description" in
     let photo := get (body req) "photo" in
     _ ← pool_connect;
     result ← client_query update_sql [name; description; photo; JStr id];
     _ ← try_catch
           (recipeId ← rows_0_id result;
            console_log "Updated with ID:" [LogVal recipeId])
           (fun error =>
              _ ← console_log "ID could not be found, creating..." [];
              result ← client_query insert_sql [name; description; photo];
              recipeId ← rows_0_id result;
              console_log ("Could not find ID " +:+ id +:+ ". Inserted with ID:")
                          [LogVal recipeId]);
     _ ← client_release;
     send 200 "Recipe updated successfully")
    (fail_with "Error updating recipe:" "Error updating recipe").

(** [app.patch('/patch-recipe/:id', ...)], lines 154-182 *)
Definition patch_recipe (req : request) : world db -> response * world db :=
  handler
    (let id := params_id req in
     let vals := body req in
     _ ← pool_connect;
     _ ← values_join (values vals);
     let '(text, params) := patch_statement id vals in
     result ← client_query text params;
     _ ← client_release;
     send 200 "Recipe patched successfully")
    (fail_with "Error updating recipe:" "Error updating recipe").

(** [app.delete('/delete-recipe/:id', ...)], lines 189-201 *)
Definition delete_recipe (req : request) : world db -> response * world db :=
  handler
    (let id := params_id req in
     _ ← pool_connect;
     result ← client_query delete_sql [JStr id];
     _ ← console_log "Deleted with ID:" [LogVal (JStr id)];
     _ ← client_release;
     send 200 "Recipe deleted successfully")
    (fail_with "Error deleting recipe:" "Error deleting recipe").

End Handlers.

(** ** A reference store: the [recipes] table of the README *)

Module Recipes.

(** The table answers the statements of the handlers on plain inputs:
    ids written in decimal and texts taken as they are.  The limits of
    the column types ([SERIAL], [VARCHAR(255)]) and the statements that
    PostgreSQL would run beyond those listed in [query] are not part of
    it; it serves the properties of PUT and the examples. *)

(** A row without its key; the three columns are [NOT NULL]. *)
Record recipe : Type := { name : string; description : string; photo : string }.

(** The table keyed by [id], the next value of its [SERIAL] sequence,
    and whether the server accepts connections. *)
Record table : Type := {
  recipes : gmap Z recipe;
  serial : Z;
  online : bool
}.

(** The text a bound parameter is sent as; [None] is SQL [NULL].
    Arrays and objects are not given an encoding here and count as
    [NULL]. *)
Definition param_text (v : jsval) : option string :=
  match v with
  | JStr s => Some s
  | JNum n => Some (show_int n)
  | JBool true => Some "true"
  | JBool false => Some "false"
  | _ => None
  end.

(** An integer written in decimal. *)
Definition parse_id (s : string) : option Z :=
  Z.of_int <$> NilZero.int_of_string s.

(** A parameter compared with the [id] column. *)
Definition param_id (v : jsval) : option Z :=
  param_text v ≫= parse_id.

Definition set_column (col : string) (v : string) (r : recipe) : recipe :=
  if String.eqb col "name" then
    {| name := v; description := description r; photo := photo r |}
  else if String.eqb col "description" then
    {| name := name r; description := v; photo := photo r |}
  else if String.eqb col "photo" then
    {| name := name r; description := description r; photo := v |}
  else r.

Definition columns : list string := ["name"; "description"; "photo"].

Definition with_recipes (m : gmap Z recipe) (t : table) : table :=
  {| recipes := m; serial := serial t; online := online t |}.

(** [INSERT ... RETURNING id]: the row gets the next value of the
    sequence, which comes back as the only row of the result. *)
Definition insert_row (r : recipe) (t : table) : pg_result * table :=
  ({| rows := [[("id", JNum (serial t))]]; rowCount := 1 |},
   {| recipes := <[serial t := r]> (recipes t);
      serial := (serial t + 1)%Z;
      online := online t |}).

(** [UPDATE ... WHERE id = i] without [RETURNING]: no row comes back,
    whether or not one matched. *)
Definition update_row (i : Z) (f : recipe -> recipe) (t : table) : pg_result * table :=
  match recipes t !! i with
  | Some r => ({| rows := []; rowCount := 1 |}, with_recipes (<[i := f r]> (recipes t)) t)
  | None => ({| rows := []; rowCount := 0 |}, t)
  end.

(** [DELETE ... WHERE id = i] *)
Definition delete_row (i : Z) (t : table) : pg_result * table :=
  match recipes t !! i with
  | Some _ => ({| rows := []; rowCount := 1 |}, with_recipes (delete i (recipes t)) t)
  | None => ({| rows := []; rowCount := 0 |}, t)
  end.

(** The pieces of a string between occurrences of [", "]. *)
Fixpoint split_comma (s : string) : list string :=
  match s with
  | EmptyString => [""]
  | String "," (String " " s') => "" :: split_comma s'
  | String c s' =>
      match split_comma s' with
      | [] => [String c ""]
      | piece :: pieces => String c piece :: pieces
      end
  end.

(** The column of the assignment [col = $n] standing at position
    [n - 1] of a [SET] list. *)
Definition assignment_column (n : nat) (item : string) : option string :=
  List.find (fun col => String.eqb item (col +:+ " = $" +:+ show_int (Z.of_nat n)))
            columns.

Fixpoint assignment_columns (n : nat) (items : list string) : option (list string) :=
  match items with
  | [] => Some []
  | item :: items' =>
      col ← assignment_column n item;
      cols ← assignment_columns (S n) items';
      Some (col :: cols)
  end.

(** Reads [UPDATE recipes SET c1 = $1, ..., cn = $n WHERE id = i] with
    distinct columns [c1 .. cn] of the table and a decimal [i]. *)
Definition parse_update (text : string) : option (list string * Z) :=
  let head := "UPDATE recipes SET " in
  let mid := " WHERE id = " in
  if String.prefix head text then
    let rest := String.substring (String.length head)
                  (String.length text - String.length head) text in
    pos ← String.index 0 mid rest;
    let assigns := String.substring 0 pos rest in
    let target := String.substring (pos + String.length mid)
                    (String.length rest - (pos + String.length mid)) rest in
    cols ← assignment_columns 1 (split_comma assigns);
    i ← parse_id target;
    if bool_decide (NoDup cols) then Some (cols, i) else None
  else None.

Fixpoint assign (cols : list string) (vs : list string) (r : recipe) : recipe :=
  match cols, vs with
  | col :: cols', v :: vs' => assign cols' vs' (set_column col v r)
  | _, _ => r
  end.

(** All the texts of a parameter list, when none is [NULL]. *)
Definition param_texts (params : list jsval) : option (list string) :=
  mapM param_text params.

Definition refuse (msg : string) (t : table) : (string + pg_result) * table :=
  (inl msg, t).

Definition accept (rt : pg_result * table) : (string + pg_result) * table :=
  (inr rt.1, rt.2).

(** The statements the table answers; any other text is refused as a
    syntax error, a [NULL] in a column as a constraint violation. *)
Definition query (text : string) (params : list jsval) (t : table)
  : (string + pg_result) * table :=
  if String.eqb text insert_sql then
    match param_texts params with
    | Some [n; d; p] =>
        accept (insert_row {| name := n; description := d; photo := p |} t)
    | _ => refuse "null value violates not-null constraint" t
    end
  else if String.eqb text update_sql then
    match params with
    | [n; d; p; i] =>
        match param_texts [n; d; p], param_id i with
        | Some [n'; d'; p'], Some i' =>
            accept (update_row i'
                      (fun _ => {| name := n'; description := d'; photo := p' |}) t)
        | None, _ => refuse "null value violates not-null constraint" t
        | _, _ => refuse "invalid input syntax for type integer" t
        end
    | _ => refuse "bind message supplies the wrong number of parameters" t
    end
  else if String.eqb text delete_sql then
    match params with
    | [i] =>
        match param_id i with
        | Some i' => accept (delete_row i' t)
        | None => refuse "invalid input syntax for type integer" t
        end
    | _ => refuse "bind message supplies the wrong number of parameters" t
    end
  else
    match parse_update text with
    | Some (cols, i) =>
        if bool_decide (length cols = length params) then
          match param_texts params with
          | Some vs => accept (update_row i (assign cols vs) t)
          | None => refuse "null value violates not-null constraint" t
          end
        else refuse "bind message supplies the wrong number of parameters" t
    | None => refuse "syntax error" t
    end.

#[global] Instance table_store : Store table := {
  pg_connect t := if online t then None else Some "connection refused";
  pg_query := query
}.

(** A fresh world over a table. *)
Definition boot (t : table) : world table :=
  {| store := t; leased := 0; issued := []; console := [] |}.

(** A table holding one recipe under id 1. *)
Definition toast : table :=
  {| recipes := {[ 1%Z := {| name := "Toast"; description := "Simple"; photo := "" |} ]};
     serial := 2;
     online := true |}.

End Recipes.

(** ** Vocabulary of the properties *)

(** The properties of a body that are not bound to [null]. *)
Definition kept (vals : object) : object :=
  List.filter (fun kv => strict_ne_null kv.2) vals.

(** A body carrying the three fields as strings. *)
Definition full_body (n d p : string) : object :=
  [("name", JStr n); ("description", JStr d); ("photo", JStr p)].

(** The world a handler leaves behind when its last query was rejected
    or its [try] block threw after a client was taken: the client is
    still out. *)
Definition failed {db : Type} (log : string) (error : exn)
    (s : db) (sent_now : list (string * list jsval)) (w : world db) : world db :=
  {| store := s; leased := S (leased w);
     issued := issued w ++ sent_now;
     console := console w ++ [{| line_text := log; line_args := [LogExn error] |}] |}.

(** ** The read handlers (src/app.js, lines 47-85) *)

(** What one call of [res.send] is given: a text, or a value that
    Express serialises. *)
Inductive sent_body : Type :=
| SendText (s : string)
| SendValue (v : jsval).

(** One call of [res.send], with the status code standing at the time. *)
Record reply : Type := { reply_status : nat; reply_body : sent_body }.

Section Reads.
Context {db : Type} `{!Store db}.

(** [pool.query(text, params, callback)]: the pool takes a client, runs
    the query and gives the client back by itself, then calls back with
    the error or the result. *)
Definition pool_query (text : string) (params : list jsval) (w : world db)
  : (exn + pg_result) * world db :=
  match pg_connect (store w) with
  | Some msg => (inl (ConnectError msg), w)
  | None =>
      let '(answer, s') := pg_query text params (store w) in
      let w' := {| store := s'; leased := leased w;
                   issued := (issued w ++ [(text, params)])%list;
                   console := console w |} in
      match answer with
      | inl msg => (inl (QueryError msg), w')
      | inr result => (inr result, w')
      end
  end.

Definition console_error (log : string) (error : exn) (w : world db) : world db :=
  {| store := store w; leased := leased w; issued := issued w;
     console := (console w ++ [{| line_text := log; line_args := [LogExn error] |}])%list |}.

Definition select_all_sql : string := "SELECT * FROM recipes".
Definition select_one_sql : string := "SELECT * FROM recipes WHERE id = $1".

(** [app.get('/', ...)], lines 47-49 *)
Definition root (req : request) (w : world db) : list reply * world db :=
  ([{| reply_status := 200; reply_body := SendText "Recipe Server is running" |}], w).

(** [app.get('/all-recipes', ...)], lines 55-64 *)
Definition all_recipes (req : request) (w : world db) : list reply * world db :=
  match pool_query select_all_sql [] w with
  | (inl error, w') =>
      ([{| reply_status := 500; reply_body := SendText "Error getting recipes" |}],
       console_error "Error getting recipes:" error w')
  | (inr result, w') =>
      ([{| reply_status := 200;
           reply_body := SendValue (JArr (JObj <$> rows result)) |}], w')
  end.

(** [result.rows[0]] *)
Definition rows_0 (result : pg_result) : jsval :=
  match rows result with
  | [] => JUndefined
  | row :: _ => JObj row
  end.

(** [app.get('/recipe/:id', ...)], lines 71-85.  The [if] that answers a
    missing recipe has no [else] and does not return: the second
    [res.send] follows it. *)
Definition recipe_by_id (req : request) (w : world db) : list reply * world db :=
  let id := params_id req in
  match pool_query select_one_sql [JStr id] w with
  | (inl error, w') =>
      ([{| reply_status := 500; reply_body := SendText "Error getting recipe" |}],
       console_error "Error getting recipe:" error w')
  | (inr result, w') =>
      ((if Nat.eqb (length (rows result)) 0
        then [{| reply_status := 200;
                 reply_body := SendText ("No recipe found with id " +:+ id) |}]
        else [])
       ++ [{| reply_status := 200; reply_body := SendValue (rows_0 result) |}],
       w')%list
  end.

End Reads.

(** ** A scripted store *)

Module Script.

(** A store that hands out answers prepared in advance, one per query,
    whatever the statement. *)
Record script : Type := {
  up : bool;
  answers : list (string + pg_result)
}.

Definition query (text : string) (params : list jsval) (s : script)
  : (string + pg_result) * script :=
  match answers s with
  | [] => (inl "no answer left", s)
  | answer :: later => (answer, {| up := up s; answers := later |})
  end.

#[global] Instance script_store : Store script := {
  pg_connect s := if up s then None else Some "connection refused";
  pg_query := query
}.

Definition boot (s : script) : world script :=
  {| store := s; leased := 0; issued := []; console := [] |}.

Definition play (l : list (string + pg_result)) : world script :=
  boot {| up := true; answers := l |}.

End Script.

(** A value that is neither an array nor an object. *)
Definition primitive (v : jsval) : bool :=
  match v with
  | JArr _ | JObj _ => false
  | _ => true
  end.

(** A request that carries only an id. *)
Definition by_id (id : string) : request :=
  {| params_id := id; body := []; file := None |}.

(** The outcome of a handler that did nothing to the store and the
    pool and answered 500. *)
Definition turned_away {db : Type} (w : world db) (out : response * world db) : Prop :=
  status out.1 = 500 /\ store out.2 = store w /\
  issued out.2 = issued w /\ leased out.2 = leased w.

(** The client of a handler went back to the pool if the answer is 200
    and is still out otherwise. *)
Definition client_settled {db : Type} (w : world db) (out : response * world db) : Prop :=
  leased out.2 = if Nat.eqb (status out.1) 200 then leased w else S (leased w).

(** ** Arrays and objects *)

Section Arrays.


Lemma indexOf_absent (arr : list string) (x : string) :
  x ∉ arr -> indexOf arr x = (-1)%Z.
Proof.
  induction arr as [|y arr IH]; simpl; [done|].
  intros Hx. apply not_elem_of_cons in Hx as [Hne Hx].
  destruct (String.eqb_spec y x) as [->|_]; [done|].
  by rewrite IH.
Qed.

Lemma indexOf_bound (arr : list string) (x : string) :
  (-1 <= indexOf arr x)%Z.
Proof.
  induction arr as [|y arr IH]; simpl; [lia|].
  destruct (String.eqb y x); [lia|].
  destruct (Z.ltb_spec (indexOf arr x) 0); lia.
Qed.


(** Reading a property that the object binds once. *)
Lemma get_bound (o : object) (k : string) (v : jsval) :
  NoDup (Object_keys o) -> (k, v) ∈ o -> get o k = v.
Proof.
  unfold Object_keys.
  induction o as [|[k' v'] o IH]; simpl; intros Hnd Hin.
  - by apply elem_of_nil in Hin.
  - apply NoDup_cons in Hnd as [Hk' Hnd].
    apply elem_of_cons in Hin as [Heq|Hin].
    + injection Heq as -> ->. by rewrite String.eqb_refl.
    + destruct (String.eqb_spec k' k) as [->|_]; [|by apply IH].
      exfalso. apply Hk'. apply list_elem_of_fmap. by exists (k, v).
Qed.


End Arrays.

(** ** The statement builder *)

Section Builder.


Lemma filter_keys (g : string -> jsval) (o : object) :
  (forall kv, kv ∈ o -> g kv.1 = kv.2) ->
  List.filter (fun key => strict_ne_null (g key)) o.*1
  = (List.filter (fun kv => strict_ne_null kv.2) o).*1.
Proof.
  induction o as [|kv o IH]; intros Hg; [done|].
  rewrite fmap_cons. cbn [List.filter].
  rewrite (Hg kv) by apply list_elem_of_here.
  rewrite IH by (intros kv' Hin; apply Hg; by apply list_elem_of_further).
  by destruct (strict_ne_null kv.2).
Qed.

Lemma keys_kept (vals : object) :
  NoDup (Object_keys vals) -> keys vals = (kept vals).*1.
Proof.
  intros Hnd. unfold keys, kept, Object_keys. apply filter_keys.
  intros [k v] Hin. by apply get_bound.
Qed.




(** The statement text is made of the kept keys and the id alone. *)
Lemma patch_text_of_keys (id : string) (vals vals' : object) :
  keys vals = keys vals' ->
  (patch_statement id vals).1 = (patch_statement id vals').1.
Proof.
  intros Hk. unfold patch_statement, keysWithIdStringWithId, keysWithIdString,
    keysWithId. simpl. by rewrite Hk.
Qed.

End Builder.

Example patch_statement_two_fields :
  patch_statement "7" [("name", JStr "Toast"); ("photo", JNull); ("description", JStr "")]
  = ("UPDATE recipes SET name = $1, description = $2 WHERE id = 7",
     [JStr "Toast"; JStr ""]).
Proof. reflexivity. Qed.

(** C1.  The statement text of a PATCH is not free of caller-supplied
    values: the target id is written into it, so two requests that
    differ only in their id get different statement texts. *)
Theorem patch_text_embeds_id (id1 id2 : string) (vals : object) :
  id1 <> id2 ->
  (patch_statement id1 vals).1 <> (patch_statement id2 vals).1.
Proof.
  intros Hne Heq. apply Hne.
  unfold patch_statement, keysWithIdStringWithId in Heq. simpl in Heq.
  by repeat apply (inj (String.app _)) in Heq.
Qed.

Lemma patch_text_embeds_id_witness :
  "1" <> "2" /\
  (patch_statement "1" [("name", JStr "x")]).1
  <> (patch_statement "2" [("name", JStr "x")]).1.
Proof.
  split; [discriminate|].
  apply (patch_text_embeds_id "1" "2"). discriminate.
Defined.

(** An id taken from the path reaches the statement as SQL. *)
Example patch_text_injected :
  (patch_statement "1 OR 1=1" [("name", JStr "x")]).1
  = "UPDATE recipes SET name = $1 WHERE id = 1 OR 1=1".
Proof. reflexivity. Qed.

(** C2.  The parameter list of a PATCH holds the kept values and nothing
    else: its length is the number of fields, not one more, and the id
    is not bound but appended to the statement text. *)
Theorem patch_params_omit_id (id : string) (vals : object) :
  (patch_statement id vals).2 = values vals /\
  length (patch_statement id vals).2 = length (keys vals) /\
  (patch_statement id vals).1
  = "UPDATE recipes SET " +:+ keysWithIdString vals +:+ " WHERE id = " +:+ id.
Proof.
  unfold patch_statement, keysWithIdStringWithId, values. simpl.
  by rewrite length_fmap.
Qed.

Example patch_params_one_field :
  patch_statement "7" [("name", JStr "Toast")]
  = ("UPDATE recipes SET name = $1 WHERE id = 7", [JStr "Toast"]).
Proof. reflexivity. Qed.



(** ** Runs of the handlers over any store *)

Section Runs.
Context {db : Type} `{!Store db}.

Ltac run :=
  unfold create_recipe, update_recipe, patch_recipe, delete_recipe, handler,
    try_catch, send, rows_0_id, values_join, throw, fail_with, failed,
    pool_connect, client_query, client_release, console_log,
    mbind, mret, M_bind, M_ret; simpl.

(** No client, no statement: the pool refusing is answered by 500. *)
Lemma patch_recipe_offline (req : request) (w : world db) (msg : string) :
  pg_connect (store w) = Some msg ->
  patch_recipe req w
  = fail_with "Error updating recipe:" "Error updating recipe" (ConnectError msg) w.
Proof. intros Hc. run. by rewrite Hc. Qed.

(** A value that cannot be joined ends the PATCH before its query. *)
Lemma patch_recipe_join_throws (req : request) (w : world db) :
  pg_connect (store w) = None ->
  existsb ToString_throws (values (body req)) = true ->
  patch_recipe req w
  = ({| status := 500; sent := "Error updating recipe" |},
     failed "Error updating recipe:" TypeError (store w) [] w).
Proof. intros Hc Hj. run. rewrite Hc, Hj. simpl. by rewrite app_nil_r. Qed.

(** The PATCH handler sends the one statement it builds and answers by
    what the store says to it. *)
Lemma patch_recipe_run (req : request) (w : world db) :
  pg_connect (store w) = None ->
  existsb ToString_throws (values (body req)) = false ->
  let st := patch_statement (params_id req) (body req) in
  patch_recipe req w
  = match pg_query st.1 st.2 (store w) with
    | (inr _, s') =>
        ({| status := 200; sent := "Recipe patched successfully" |},
         {| store := s'; leased := leased w;
            issued := issued w ++ [st]; console := console w |})
    | (inl msg, s') =>
        ({| status := 500; sent := "Error updating recipe" |},
         failed "Error updating recipe:" (QueryError msg) s' [st] w)
    end.
Proof.
  intros Hc Hj. run. rewrite Hc, Hj. simpl.
  by destruct (pg_query _ _ _) as [[msg|result] s'].
Qed.

Lemma delete_recipe_run (req : request) (w : world db) :
  pg_connect (store w) = None ->
  let st := (delete_sql, [JStr (params_id req)]) in
  delete_recipe req w
  = match pg_query st.1 st.2 (store w) with
    | (inr _, s') =>
        ({| status := 200; sent := "Recipe deleted successfully" |},
         {| store := s'; leased := leased w;
            issued := issued w ++ [st];
            console := console w ++
              [{| line_text := "Deleted with ID:";
                  line_args := [LogVal (JStr (params_id req))] |}] |})
    | (inl msg, s') =>
        ({| status := 500; sent := "Error deleting recipe" |},
         failed "Error deleting recipe:" (QueryError msg) s' [st] w)
    end.
Proof.
  intros Hc. run. rewrite Hc. simpl.
  by destruct (pg_query _ _ _) as [[msg|result] s'].
Qed.

Lemma create_recipe_run (req : request) (w : world db) :
  pg_connect (store w) = None ->
  let st := (insert_sql, [get (body req) "name"; get (body req) "description";
                          get (body req) "photo"]) in
  create_recipe req w
  = match pg_query st.1 st.2 (store w) with
    | (inr result, s') =>
        match rows result with
        | row :: _ =>
            ({| status := 200; sent := "Recipe created successfully" |},
             {| store := s'; leased := leased w;
                issued := issued w ++ [st];
                console := console w ++
                  [{| line_text := "Inserted with ID:";
                      line_args := [LogVal (get row "id")] |}] |})
        | [] =>
            ({| status := 500; sent := "Error creating recipe" |},
             failed "Error creating recipe:" TypeError s' [st] w)
        end
    | (inl msg, s') =>
        ({| status := 500; sent := "Error creating recipe" |},
         failed "Error creating recipe:" (QueryError msg) s' [st] w)
    end.
Proof.
  intros Hc. run. rewrite Hc. simpl.
  destruct (pg_query _ _ _) as [[msg|result] s']; [done|].
  by destruct (rows result).
Qed.

(** An [UPDATE] that brings no row back sends the PUT handler into its
    inner [catch], whatever it changed: the [INSERT] follows. *)
Lemma update_recipe_run (req : request) (w : world db)
    (r1 r2 : pg_result) (s1 s2 : db) (row : object) (more : list object) :
  let n := get (body req) "name" in
  let d := get (body req) "description" in
  let p := get (body req) "photo" in
  pg_connect (store w) = None ->
  pg_query update_sql [n; d; p; JStr (params_id req)] (store w) = (inr r1, s1) ->
  rows r1 = [] ->
  pg_query insert_sql [n; d; p] s1 = (inr r2, s2) ->
  rows r2 = row :: more ->
  update_recipe req w
  = ({| status := 200; sent := "Recipe updated successfully" |},
     {| store := s2; leased := leased w;
        issued := issued w ++ [(update_sql, [n; d; p; JStr (params_id req)]);
                               (insert_sql, [n; d; p])];
        console := console w ++
          [{| line_text := "ID could not be found, creating..."; line_args := [] |};
           {| line_text := "Could not find ID " +:+ params_id req
                           +:+ ". Inserted with ID:";
              line_args := [LogVal (get row "id")] |}] |}).
Proof.
  intros n d p Hc Hu Hr1 Hi Hr2. run. rewrite Hc. simpl.
  fold n d p. rewrite Hu. simpl. rewrite Hr1. simpl.
  rewrite Hi. simpl. rewrite Hr2. simpl.
  by rewrite <- !app_assoc.
Qed.

End Runs.

(** ** The reference table answering the handlers' statements *)

Section Table.
Import Recipes.

Lemma query_insert (n d p : string) (t : table) :
  query insert_sql [JStr n; JStr d; JStr p] t
  = accept (insert_row {| name := n; description := d; photo := p |} t).
Proof. reflexivity. Qed.

Lemma query_update (n d p id : string) (i : Z) (t : table) :
  parse_id id = Some i ->
  query update_sql [JStr n; JStr d; JStr p; JStr id] t
  = accept (update_row i (fun _ => {| name := n; description := d; photo := p |}) t).
Proof.
  intros Hid. unfold query.
  change (String.eqb update_sql insert_sql) with false.
  change (String.eqb update_sql update_sql) with true.
  cbn [param_texts mapM param_text mbind option_bind mret option_ret param_id].
  by rewrite Hid.
Qed.

Lemma query_delete (id : string) (i : Z) (t : table) :
  parse_id id = Some i ->
  query delete_sql [JStr id] t = accept (delete_row i t).
Proof.
  intros Hid. unfold query.
  change (String.eqb delete_sql insert_sql) with false.
  change (String.eqb delete_sql update_sql) with false.
  change (String.eqb delete_sql delete_sql) with true.
  cbn [param_text mbind option_bind param_id].
  by rewrite Hid.
Qed.

Lemma update_row_rows (i : Z) (f : recipe -> recipe) (t : table) :
  rows (update_row i f t).1 = [].
Proof. unfold update_row. by destruct (recipes t !! i). Qed.

Lemma update_row_serial (i : Z) (f : recipe -> recipe) (t : table) :
  serial (update_row i f t).2 = serial t /\ online (update_row i f t).2 = online t.
Proof. unfold update_row. by destruct (recipes t !! i). Qed.

(** What a PUT with three string fields does to the table: the
    [UPDATE], then the [INSERT], whether or not a row matched. *)
Lemma update_recipe_on_table (t : table) (id : string) (i : Z)
    (n d p : string) (f : option string) :
  online t = true ->
  parse_id id = Some i ->
  let r := {| name := n; description := d; photo := p |} in
  let t1 := (update_row i (fun _ => r) t).2 in
  update_recipe {| params_id := id; body := full_body n d p; file := f |} (boot t)
  = ({| status := 200; sent := "Recipe updated successfully" |},
     {| store := (insert_row r t1).2;
        leased := 0;
        issued := [(update_sql, [JStr n; JStr d; JStr p; JStr id]);
                   (insert_sql, [JStr n; JStr d; JStr p])];
        console :=
          [{| line_text := "ID could not be found, creating..."; line_args := [] |};
           {| line_text := "Could not find ID " +:+ id +:+ ". Inserted with ID:";
              line_args := [LogVal (JNum (serial t))] |}] |}).
Proof.
  intros Hon Hid r t1.
  erewrite (update_recipe_run (db := table)); cycle 1.
  - simpl. by rewrite Hon.
  - simpl. rewrite (query_update n d p id i t Hid). reflexivity.
  - apply update_row_rows.
  - simpl. rewrite query_insert. reflexivity.
  - reflexivity.
  - simpl. fold r. fold t1. unfold t1.
    by destruct (update_row_serial i (fun _ => r) t) as [-> _].
Qed.

End Table.

(** ** PUT *)

(** C3.  A PUT whose id matches a row does update that row, and then
    inserts a second one all the same: the [UPDATE] has no [RETURNING]
    clause, so reading [result.rows[0].id] throws and the inner [catch]
    runs the [INSERT].  The table ends one row larger. *)
Theorem put_existing_inserts_row (t : Recipes.table) (id : string) (i : Z)
    (r0 : Recipes.recipe) (n d p : string) (f : option string) :
  Recipes.online t = true ->
  Recipes.parse_id id = Some i ->
  Recipes.recipes t !! i = Some r0 ->
  Recipes.recipes t !! Recipes.serial t = None ->
  let r := {| Recipes.name := n; Recipes.description := d; Recipes.photo := p |} in
  let run := update_recipe {| params_id := id; body := full_body n d p; file := f |}
               (Recipes.boot t) in
  run.1 = {| status := 200; sent := "Recipe updated successfully" |} /\
  Recipes.recipes (store run.2) !! i = Some r /\
  Recipes.recipes (store run.2) !! Recipes.serial t = Some r /\
  size (Recipes.recipes (store run.2)) = S (size (Recipes.recipes t)) /\
  issued run.2 = [(update_sql, [JStr n; JStr d; JStr p; JStr id]);
                  (insert_sql, [JStr n; JStr d; JStr p])].
Proof.
  intros Hon Hid Hrow Hfresh r run. unfold run.
  rewrite (update_recipe_on_table t id i n d p f Hon Hid).
  unfold Recipes.update_row. rewrite Hrow. simpl.
  assert (Hne : i <> Recipes.serial t) by congruence.
  split; [done|]. split; [|split; [|split; [|done]]].
  - rewrite lookup_insert_ne by done. by rewrite lookup_insert_eq.
  - by rewrite lookup_insert_eq.
  - rewrite map_size_insert_None by (by rewrite lookup_insert_ne).
    by rewrite map_size_insert_Some.
Qed.

Lemma put_existing_inserts_row_witness :
  let run := update_recipe {| params_id := "1"; body := full_body "N" "D" "P"; file := None |}
               (Recipes.boot Recipes.toast) in
  size (Recipes.recipes (store run.2)) = 2.
Proof.
  intros run.
  destruct (put_existing_inserts_row Recipes.toast "1" 1
              {| Recipes.name := "Toast"; Recipes.description := "Simple";
                 Recipes.photo := "" |} "N" "D" "P" None
              eq_refl eq_refl eq_refl eq_refl) as (_ & _ & _ & Hsize & _).
  exact Hsize.
Defined.

(** C6.  A PUT whose id matches no row inserts one row under the next
    value of the sequence, but what the caller gets is the very answer
    of a PUT on an existing id: the generic 200 text, with neither the
    new id nor a mark of the fallback in it. *)
Theorem put_missing_indistinguishable (t t' : Recipes.table) (id id' : string)
    (i i' : Z) (r0 : Recipes.recipe) (n d p : string) (f f' : option string) :
  Recipes.online t = true ->
  Recipes.parse_id id = Some i ->
  Recipes.recipes t !! i = None ->
  Recipes.recipes t !! Recipes.serial t = None ->
  Recipes.online t' = true ->
  Recipes.parse_id id' = Some i' ->
  Recipes.recipes t' !! i' = Some r0 ->
  let r := {| Recipes.name := n; Recipes.description := d; Recipes.photo := p |} in
  let missing := update_recipe {| params_id := id; body := full_body n d p; file := f |}
                   (Recipes.boot t) in
  let existing := update_recipe {| params_id := id'; body := full_body n d p; file := f' |}
                    (Recipes.boot t') in
  size (Recipes.recipes (store missing.2)) = S (size (Recipes.recipes t)) /\
  Recipes.recipes (store missing.2) !! Recipes.serial t = Some r /\
  missing.1 = {| status := 200; sent := "Recipe updated successfully" |} /\
  missing.1 = existing.1.
Proof.
  intros Hon Hid Hrow Hfresh Hon' Hid' Hrow' r missing existing.
  unfold missing, existing.
  rewrite (update_recipe_on_table t id i n d p f Hon Hid).
  rewrite (update_recipe_on_table t' id' i' n d p f' Hon' Hid').
  unfold Recipes.update_row at 1 2. rewrite Hrow. simpl.
  split; [by rewrite map_size_insert_None|].
  split; [by rewrite lookup_insert_eq|done].
Qed.

Lemma put_missing_indistinguishable_witness :
  (update_recipe {| params_id := "50"; body := full_body "N" "D" "P"; file := None |}
     (Recipes.boot Recipes.toast)).1
  = (update_recipe {| params_id := "1"; body := full_body "N" "D" "P"; file := None |}
       (Recipes.boot Recipes.toast)).1.
Proof.
  destruct (put_missing_indistinguishable Recipes.toast Recipes.toast "50" "1" 50 1
              {| Recipes.name := "Toast"; Recipes.description := "Simple";
                 Recipes.photo := "" |} "N" "D" "P" None None
              eq_refl eq_refl eq_refl eq_refl eq_refl eq_refl eq_refl)
    as (_ & _ & _ & Hsame).
  exact Hsame.
Defined.

(** ** PATCH *)

(** C4.  Whatever a store answers to the statement of a PATCH, a row
    count of zero included, the caller gets the 200 success text: the
    handler never reads the result, so an id that matches no row is not
    reported.  The one statement sent is the [UPDATE]; no [INSERT]
    follows it. *)
Theorem patch_recipe_reports_success {db : Type} `{!Store db}
    (req : request) (w : world db) (result : pg_result) (s' : db) :
  pg_connect (store w) = None ->
  existsb ToString_throws (values (body req)) = false ->
  pg_query (patch_statement (params_id req) (body req)).1
           (patch_statement (params_id req) (body req)).2 (store w)
  = (inr result, s') ->
  patch_recipe req w
  = ({| status := 200; sent := "Recipe patched successfully" |},
     {| store := s'; leased := leased w;
        issued := issued w ++ [patch_statement (params_id req) (body req)];
        console := console w |}).
Proof.
  intros Hc Hj Hq. rewrite (patch_recipe_run req w Hc Hj). simpl.
  simpl in Hq. by rewrite Hq.
Qed.

Lemma patch_recipe_reports_success_witness :
  patch_recipe {| params_id := "99"; body := [("name", JStr "X")]; file := None |}
    (Recipes.boot Recipes.toast)
  = ({| status := 200; sent := "Recipe patched successfully" |},
     {| store := Recipes.toast; leased := 0;
        issued := [("UPDATE recipes SET name = $1 WHERE id = 99", [JStr "X"])];
        console := [] |}).
Proof.
  apply (patch_recipe_reports_success
           {| params_id := "99"; body := [("name", JStr "X")]; file := None |}
           (Recipes.boot Recipes.toast)
           {| rows := []; rowCount := 0 |} Recipes.toast);
    vm_compute; reflexivity.
Defined.

(** The matching id gets the same answer. *)
Example patch_recipe_existing_id :
  (patch_recipe {| params_id := "1"; body := [("name", JStr "Toast v2")]; file := None |}
     (Recipes.boot Recipes.toast)).1
  = {| status := 200; sent := "Recipe patched successfully" |}.
Proof. vm_compute. reflexivity. Qed.

(** A body without fields and a body with a field the table does not
    have both reach the store as a statement. *)
Lemma patch_recipe_unvalidated_reaches_store :
  issued (patch_recipe {| params_id := "1"; body := []; file := None |}
            (Recipes.boot Recipes.toast)).2
  = [("UPDATE recipes SET  WHERE id = 1", [])] /\
  issued (patch_recipe {| params_id := "1"; body := [("nme", JStr "x")]; file := None |}
            (Recipes.boot Recipes.toast)).2
  = [("UPDATE recipes SET nme = $1 WHERE id = 1", [JStr "x"])].
Proof. split; vm_compute; reflexivity. Qed.

(** C5.  The PATCH handler rejects nothing before the store is called:
    once it holds a client and has joined the values, it sends the
    statement built from whatever keys the body has, an empty [SET]
    list or a key that is no column included, and the answer is 200
    when the store accepts that statement and 500 when it rejects it. *)
Theorem patch_recipe_validates_nothing {db : Type} `{!Store db}
    (req : request) (w : world db) :
  pg_connect (store w) = None ->
  existsb ToString_throws (values (body req)) = false ->
  let st := patch_statement (params_id req) (body req) in
  issued (patch_recipe req w).2 = (issued w ++ [st])%list /\
  (patch_recipe req w).1
  = match (pg_query st.1 st.2 (store w)).1 with
    | inr _ => {| status := 200; sent := "Recipe patched successfully" |}
    | inl _ => {| status := 500; sent := "Error updating recipe" |}
    end.
Proof.
  intros Hc Hj st. rewrite (patch_recipe_run req w Hc Hj). fold st.
  by destruct (pg_query _ _ _) as [[msg|result] s'].
Qed.

Lemma patch_recipe_validates_nothing_witness :
  let req := {| params_id := "1"; body := []; file := None |} in
  issued (patch_recipe req (Recipes.boot Recipes.toast)).2
  = [("UPDATE recipes SET  WHERE id = 1", [])].
Proof.
  intros req.
  destruct (@patch_recipe_validates_nothing Recipes.table Recipes.table_store
              req (Recipes.boot Recipes.toast) eq_refl eq_refl) as [Hsent _].
  exact Hsent.
Defined.



(** ** DELETE *)

(** C7.  Whatever a store answers to the [DELETE], a row count of zero
    included, the caller gets the 200 success text: a missing id and a
    removed row are answered alike. *)
Theorem delete_recipe_reports_success {db : Type} `{!Store db}
    (req : request) (w : world db) (result : pg_result) (s' : db) :
  pg_connect (store w) = None ->
  pg_query delete_sql [JStr (params_id req)] (store w) = (inr result, s') ->
  (delete_recipe req w).1
  = {| status := 200; sent := "Recipe deleted successfully" |} /\
  store (delete_recipe req w).2 = s'.
Proof.
  intros Hc Hq. rewrite (delete_recipe_run req w Hc). simpl. by rewrite Hq.
Qed.

Lemma delete_recipe_reports_success_witness :
  let missing := delete_recipe {| params_id := "9"; body := []; file := None |}
                   (Recipes.boot Recipes.toast) in
  missing.1 = {| status := 200; sent := "Recipe deleted successfully" |} /\
  store missing.2 = Recipes.toast.
Proof.
  apply (delete_recipe_reports_success
           {| params_id := "9"; body := []; file := None |}
           (Recipes.boot Recipes.toast)
           {| rows := []; rowCount := 0 |} Recipes.toast);
    vm_compute; reflexivity.
Defined.

Example delete_recipe_twice :
  let req := {| params_id := "1"; body := []; file := None |} in
  let first := delete_recipe req (Recipes.boot Recipes.toast) in
  let second := delete_recipe req first.2 in
  Recipes.recipes (store first.2) = ∅ /\
  store second.2 = store first.2 /\
  first.1 = second.1.
Proof. vm_compute. auto. Qed.

(** ** The pool *)

(** C8.  A query that the store rejects leaves the PATCH handler through
    its [catch] clause, which answers 500 and does not release: the
    client taken from the pool stays out. *)
Theorem patch_recipe_leaks_client {db : Type} `{!Store db}
    (req : request) (w : world db) (msg : string) (s' : db) :
  pg_connect (store w) = None ->
  existsb ToString_throws (values (body req)) = false ->
  pg_query (patch_statement (params_id req) (body req)).1
           (patch_statement (params_id req) (body req)).2 (store w)
  = (inl msg, s') ->
  (patch_recipe req w).1 = {| status := 500; sent := "Error updating recipe" |} /\
  leased (patch_recipe req w).2 = S (leased w).
Proof.
  intros Hc Hj Hq. rewrite (patch_recipe_run req w Hc Hj). simpl.
  simpl in Hq. by rewrite Hq.
Qed.

Lemma patch_recipe_leaks_client_witness :
  leased (patch_recipe {| params_id := "1"; body := []; file := None |}
            (Recipes.boot Recipes.toast)).2 = 1.
Proof.
  destruct (@patch_recipe_leaks_client Recipes.table Recipes.table_store
              {| params_id := "1"; body := []; file := None |}
              (Recipes.boot Recipes.toast) "syntax error" Recipes.toast
              eq_refl eq_refl eq_refl) as [_ Hleak].
  exact Hleak.
Defined.

(** The same holds for the POST handler, and for a PATCH whose values
    cannot be joined. *)
Lemma create_recipe_leaks_client {db : Type} `{!Store db}
    (req : request) (w : world db) (msg : string) (s' : db) :
  pg_connect (store w) = None ->
  pg_query insert_sql [get (body req) "name"; get (body req) "description";
                       get (body req) "photo"] (store w) = (inl msg, s') ->
  leased (create_recipe req w).2 = S (leased w).
Proof.
  intros Hc Hq. rewrite (create_recipe_run req w Hc). simpl. by rewrite Hq.
Qed.

Example create_recipe_without_photo_leaks :
  let run := create_recipe
               {| params_id := ""; body := [("name", JStr "N"); ("description", JStr "D")];
                  file := Some "bytes" |}
               (Recipes.boot Recipes.toast) in
  run.1 = {| status := 500; sent := "Error creating recipe" |} /\ leased run.2 = 1.
Proof. vm_compute. auto. Qed.

Example patch_recipe_join_leaks :
  leased (patch_recipe
            {| params_id := "1"; body := [("name", JObj [("toString", JNum 1)])];
               file := None |}
            (Recipes.boot Recipes.toast)).2 = 1.
Proof. reflexivity. Qed.

(** On the path without an error the client goes back. *)
Lemma patch_recipe_releases_on_success {db : Type} `{!Store db}
    (req : request) (w : world db) :
  (patch_recipe req w).1 = {| status := 200; sent := "Recipe patched successfully" |} ->
  leased (patch_recipe req w).2 = leased w.
Proof.
  destruct (pg_connect (store w)) as [msg|] eqn:Hc.
  { by rewrite (patch_recipe_offline req w msg Hc). }
  destruct (existsb ToString_throws (values (body req))) eqn:Hj.
  { by rewrite (patch_recipe_join_throws req w Hc Hj). }
  rewrite (patch_recipe_run req w Hc Hj).
  by destruct (pg_query _ _ _) as [[msg|result] s'].
Qed.

(** ** POST *)

(** C9.  The POST handler reads the body and nothing else of the
    request: the photo it binds is [req.body.photo], and two requests
    with the same body run alike whatever file was uploaded. *)
Theorem create_recipe_ignores_upload {db : Type} `{!Store db}
    (req req' : request) (w : world db) :
  body req' = body req ->
  pg_connect (store w) = None ->
  create_recipe req' w = create_recipe req w /\
  issued (create_recipe req w).2
  = (issued w ++ [(insert_sql, [get (body req) "name"; get (body req) "description";
                                get (body req) "photo"])])%list.
Proof.
  intros Hb Hc. split.
  - unfold create_recipe. by rewrite Hb.
  - rewrite (create_recipe_run req w Hc). simpl.
    destruct (pg_query _ _ _) as [[msg|result] s']; [done|].
    by destruct (rows result).
Qed.

Lemma create_recipe_ignores_upload_witness :
  let plain := {| params_id := ""; body := full_body "N" "D" "P"; file := None |} in
  let upload := {| params_id := ""; body := full_body "N" "D" "P";
                   file := Some "JFIF" |} in
  create_recipe upload (Recipes.boot Recipes.toast)
  = create_recipe plain (Recipes.boot Recipes.toast) /\
  issued (create_recipe plain (Recipes.boot Recipes.toast)).2
  = [(insert_sql, [JStr "N"; JStr "D"; JStr "P"])].
Proof.
  intros plain upload.
  exact (@create_recipe_ignores_upload Recipes.table Recipes.table_store
           plain upload (Recipes.boot Recipes.toast) eq_refl eq_refl).
Defined.

(** ** More on the statement builder *)

Lemma keys_all_null (vals : object) :
  Forall (fun kv => kv.2 = JNull) vals -> keys vals = [].
Proof.
  intros Hall. unfold keys.
  assert (Hget : forall k, k ∈ Object_keys vals -> get vals k = JNull).
  { unfold Object_keys. induction Hall as [|[k v] vals Hv Hall IH]; intros k' Hin.
    - by apply elem_of_nil in Hin.
    - simpl in *. subst v. destruct (String.eqb_spec k k'); [done|].
      apply IH. apply elem_of_cons in Hin as [Heq|Hin]; [congruence|done]. }
  induction (Object_keys vals) as [|k l IH]; [done|].
  cbn [List.filter]. rewrite (Hget k) by apply list_elem_of_here. simpl.
  apply IH. intros k' Hin. apply Hget. by apply list_elem_of_further.
Qed.

(** X1.  A body that binds nothing but [null], the empty body included,
    still yields a statement: its [SET] list is empty and it has no
    parameter. *)
Theorem patch_statement_all_null (id : string) (vals : object) :
  Forall (fun kv => kv.2 = JNull) vals ->
  patch_statement id vals = ("UPDATE recipes SET  WHERE id = " +:+ id, []).
Proof.
  intros Hall. unfold patch_statement, keysWithIdStringWithId, keysWithIdString,
    keysWithId, values.
  by rewrite (keys_all_null vals Hall).
Qed.

Lemma patch_statement_all_null_witness :
  patch_statement "3" [("name", JNull); ("photo", JNull)]
  = ("UPDATE recipes SET  WHERE id = 3", []).
Proof.
  apply (patch_statement_all_null "3" [("name", JNull); ("photo", JNull)]).
  repeat constructor.
Defined.

Lemma kept_keys_same_shape (vals vals' : object) :
  Forall2 (fun a b => a.1 = b.1 /\ strict_ne_null a.2 = strict_ne_null b.2) vals vals' ->
  (kept vals).*1 = (kept vals').*1 /\ Object_keys vals = Object_keys vals'.
Proof.
  unfold kept, Object_keys.
  induction 1 as [|[k v] [k' v'] vals vals' [Hk Hv] _ [IH1 IH2]]; [done|].
  simpl in Hk, Hv. subst k'. split.
  - cbn [List.filter]. simpl. rewrite <- Hv.
    destruct (strict_ne_null v); [|done]. rewrite !fmap_cons. by rewrite IH1.
  - rewrite !fmap_cons. by rewrite IH2.
Qed.

(** X2.  The values of the fields never reach the statement text: two
    bodies with the same keys, bound to [null] at the same places, give
    the same text for the same id, whatever the other values are. *)
Theorem patch_text_ignores_values (id : string) (vals vals' : object) :
  NoDup (Object_keys vals) ->
  Forall2 (fun a b => a.1 = b.1 /\ strict_ne_null a.2 = strict_ne_null b.2) vals vals' ->
  (patch_statement id vals).1 = (patch_statement id vals').1.
Proof.
  intros Hnd Hshape. apply patch_text_of_keys.
  destruct (kept_keys_same_shape vals vals' Hshape) as [Hkept Hkeys].
  rewrite (keys_kept vals Hnd).
  rewrite (keys_kept vals') by (by rewrite <- Hkeys).
  done.
Qed.

Lemma patch_text_ignores_values_witness :
  (patch_statement "1" [("name", JStr "a"); ("photo", JNull)]).1
  = (patch_statement "1" [("name", JStr "x'; DROP TABLE recipes; --"); ("photo", JNull)]).1.
Proof.
  apply (patch_text_ignores_values "1").
  - apply (bool_decide_unpack _); vm_compute; exact I.
  - repeat constructor.
Defined.

Lemma get_primitive (vals : object) (key : string) :
  Forall (fun kv => primitive kv.2 = true) vals ->
  ToString_throws (get vals key) = false.
Proof.
  induction 1 as [|[k v] vals Hv _ IH]; simpl; [done|].
  destruct (String.eqb k key); [|done].
  simpl in Hv. by destruct v.
Qed.

Lemma values_primitive (vals : object) :
  Forall (fun kv => primitive kv.2 = true) vals ->
  existsb ToString_throws (values vals) = false.
Proof.
  intros Hall. unfold values.
  induction (keys vals) as [|k l IH]; [done|].
  rewrite fmap_cons. simpl. by rewrite (get_primitive vals k Hall), IH.
Qed.

(** ** More on the handlers, over any store *)

Section Conduct.
Context {db : Type} `{!Store db}.

Ltac step :=
  unfold create_recipe, update_recipe, patch_recipe, delete_recipe, handler,
    try_catch, send, rows_0_id, values_join, throw, fail_with,
    pool_connect, client_query, client_release, console_log,
    all_recipes, recipe_by_id, pool_query, console_error, rows_0,
    mbind, mret, M_bind, M_ret; simpl.

(** X3.  With a client at hand, a PATCH answers 200 exactly when the
    values could be joined and the store accepted the statement. *)
Theorem patch_recipe_succeeds_iff (req : request) (w : world db) :
  pg_connect (store w) = None ->
  let st := patch_statement (params_id req) (body req) in
  (patch_recipe req w).1 = {| status := 200; sent := "Recipe patched successfully" |}
  <-> existsb ToString_throws (values (body req)) = false /\
      exists result s', pg_query st.1 st.2 (store w) = (inr result, s').
Proof.
  intros Hc st.
  destruct (existsb ToString_throws (values (body req))) eqn:Hj.
  { rewrite (patch_recipe_join_throws req w Hc Hj). simpl.
    split; [done|]. by intros [? _]. }
  rewrite (patch_recipe_run req w Hc Hj). fold st.
  destruct (pg_query st.1 st.2 (store w)) as [[msg|result] s'] eqn:Hq; simpl.
  - split; [done|]. by intros (_ & ? & ? & ?).
  - split; [|done]. intros _. eauto.
Qed.

(** X6.  A PATCH sends nothing, or the one statement it built: no other
    statement ever leaves the handler, and a store that got no statement
    is left as it was. *)
Theorem patch_recipe_sends_at_most_one (req : request) (w : world db) :
  let st := patch_statement (params_id req) (body req) in
  let out := patch_recipe req w in
  (issued out.2 = issued w /\ store out.2 = store w) \/
  (issued out.2 = (issued w ++ [st])%list /\
   store out.2 = (pg_query st.1 st.2 (store w)).2).
Proof.
  intros st out. unfold out.
  destruct (pg_connect (store w)) as [msg|] eqn:Hc.
  { rewrite (patch_recipe_offline req w msg Hc). by left. }
  destruct (existsb ToString_throws (values (body req))) eqn:Hj.
  { rewrite (patch_recipe_join_throws req w Hc Hj). simpl.
    left. by rewrite app_nil_r. }
  rewrite (patch_recipe_run req w Hc Hj). fold st. right.
  by destruct (pg_query st.1 st.2 (store w)) as [[msg|result] s'].
Qed.

(** X7.  A PATCH whose body binds only strings, numbers, booleans and
    [null] cannot fail before its query: with a client at hand, its
    statement reaches the store. *)
Theorem patch_recipe_primitive_reaches_store (req : request) (w : world db) :
  pg_connect (store w) = None ->
  Forall (fun kv => primitive kv.2 = true) (body req) ->
  issued (patch_recipe req w).2
  = (issued w ++ [patch_statement (params_id req) (body req)])%list.
Proof.
  intros Hc Hprim.
  rewrite (patch_recipe_run req w Hc (values_primitive _ Hprim)).
  by destruct (pg_query _ _ _) as [[msg|result] s'].
Qed.

(** X4.  When the pool gives no client, each of the four writing
    handlers answers 500 without sending a statement, and leaves the
    store and the pool as they were. *)
Theorem handlers_turned_away (req : request) (w : world db) (msg : string) :
  pg_connect (store w) = Some msg ->
  turned_away w (create_recipe req w) /\
  turned_away w (update_recipe req w) /\
  turned_away w (patch_recipe req w) /\
  turned_away w (delete_recipe req w).
Proof.
  intros Hc. unfold turned_away. step. by rewrite Hc.
Qed.

(** X5.  With a client at hand, each of the four writing handlers gives
    it back exactly when it answers 200: every 500 answer leaves one
    more client out of the pool. *)
Theorem handlers_release_iff_success (req : request) (w : world db) :
  pg_connect (store w) = None ->
  client_settled w (create_recipe req w) /\
  client_settled w (update_recipe req w) /\
  client_settled w (patch_recipe req w) /\
  client_settled w (delete_recipe req w).
Proof.
  intros Hc. unfold client_settled. repeat split.
  - rewrite (create_recipe_run req w Hc). simpl.
    destruct (pg_query _ _ _) as [[msg|result] s']; [done|].
    by destruct (rows result).
  - step. rewrite Hc. simpl.
    destruct (pg_query update_sql _ _) as [[msg|r1] s1]; [done|]. simpl.
    destruct (rows r1) as [|row more]; simpl; [|done].
    destruct (pg_query insert_sql _ _) as [[msg|r2] s2]; [done|]. simpl.
    by destruct (rows r2).
  - destruct (existsb ToString_throws (values (body req))) eqn:Hj.
    { by rewrite (patch_recipe_join_throws req w Hc Hj). }
    rewrite (patch_recipe_run req w Hc Hj).
    by destruct (pg_query _ _ _) as [[msg|result] s'].
  - rewrite (delete_recipe_run req w Hc). simpl.
    by destruct (pg_query _ _ _) as [[msg|result] s'].
Qed.

End Conduct.

Lemma patch_recipe_succeeds_iff_witness :
  (patch_recipe {| params_id := "1"; body := [("name", JStr "Toast v2")]; file := None |}
     (Recipes.boot Recipes.toast)).1
  = {| status := 200; sent := "Recipe patched successfully" |}.
Proof.
  apply (@patch_recipe_succeeds_iff Recipes.table Recipes.table_store
           {| params_id := "1"; body := [("name", JStr "Toast v2")]; file := None |}
           (Recipes.boot Recipes.toast) eq_refl).
  split; [reflexivity|].
  eexists _, _. vm_compute. reflexivity.
Defined.

Lemma patch_recipe_primitive_reaches_store_witness :
  issued (patch_recipe {| params_id := "1"; body := [("nme", JNum 0); ("name", JNull)];
                          file := None |}
            (Recipes.boot Recipes.toast)).2
  = [("UPDATE recipes SET nme = $1 WHERE id = 1", [JNum 0])].
Proof.
  apply (@patch_recipe_primitive_reaches_store Recipes.table Recipes.table_store
           {| params_id := "1"; body := [("nme", JNum 0); ("name", JNull)]; file := None |}
           (Recipes.boot Recipes.toast)).
  - reflexivity.
  - repeat constructor.
Defined.

Lemma handlers_turned_away_witness :
  let w := Recipes.boot {| Recipes.recipes := ∅; Recipes.serial := 1;
                           Recipes.online := false |} in
  turned_away w (delete_recipe (by_id "1") w).
Proof.
  intros w.
  destruct (@handlers_turned_away Recipes.table Recipes.table_store
              (by_id "1") w "connection refused" eq_refl) as (_ & _ & _ & Hd).
  exact Hd.
Defined.

Lemma handlers_release_iff_success_witness :
  client_settled (Recipes.boot Recipes.toast)
    (update_recipe {| params_id := "1"; body := [("name", JStr "N")]; file := None |}
       (Recipes.boot Recipes.toast)).
Proof.
  destruct (@handlers_release_iff_success Recipes.table Recipes.table_store
              {| params_id := "1"; body := [("name", JStr "N")]; file := None |}
              (Recipes.boot Recipes.toast) eq_refl) as (_ & Hu & _).
  exact Hu.
Defined.

(** ** More on PUT *)

Section Fallback.
Context {db : Type} `{!Store db}.

Ltac step :=
  unfold update_recipe, handler, try_catch, send, rows_0_id, throw, fail_with,
    pool_connect, client_query, client_release, console_log,
    mbind, mret, M_bind, M_ret; simpl.

(** X8.  With a client at hand a PUT always sends its [UPDATE], the id
    bound as fourth parameter, and sends the [INSERT] after it exactly
    when the [UPDATE] was accepted and brought back no row. *)
Theorem update_recipe_statements (req : request) (w : world db) :
  pg_connect (store w) = None ->
  let n := get (body req) "name" in
  let d := get (body req) "description" in
  let p := get (body req) "photo" in
  let upd := (update_sql, [n; d; p; JStr (params_id req)]) in
  let ins := (insert_sql, [n; d; p]) in
  issued (update_recipe req w).2
  = match (pg_query upd.1 upd.2 (store w)).1 with
    | inr r1 =>
        if Nat.eqb (length (rows r1)) 0
        then (issued w ++ [upd; ins])%list
        else (issued w ++ [upd])%list
    | inl _ => (issued w ++ [upd])%list
    end.
Proof.
  intros Hc n d p upd ins. step. rewrite Hc. simpl. fold n d p.
  destruct (pg_query update_sql _ _) as [[msg|r1] s1]; [done|]. simpl.
  destruct (rows r1) as [|row more]; simpl; [|done].
  destruct (pg_query insert_sql _ _) as [[msg|r2] s2]; simpl.
  - by rewrite <- app_assoc.
  - destruct (rows r2); simpl; by rewrite <- app_assoc.
Qed.

(** X10.  A PUT is not one transaction: when the [UPDATE] is accepted
    and the [INSERT] of the fallback is rejected, the caller gets 500,
    the store stays as the two statements left it and the client is not
    given back. *)
Theorem update_recipe_fallback_rejected (req : request) (w : world db)
    (r1 : pg_result) (s1 s2 : db) (msg : string) :
  pg_connect (store w) = None ->
  pg_query update_sql [get (body req) "name"; get (body req) "description";
                       get (body req) "photo"; JStr (params_id req)] (store w)
  = (inr r1, s1) ->
  rows r1 = [] ->
  pg_query insert_sql [get (body req) "name"; get (body req) "description";
                       get (body req) "photo"] s1
  = (inl msg, s2) ->
  (update_recipe req w).1 = {| status := 500; sent := "Error updating recipe" |} /\
  store (update_recipe req w).2 = s2 /\
  leased (update_recipe req w).2 = S (leased w) /\
  length (issued (update_recipe req w).2) = length (issued w) + 2.
Proof.
  intros Hc Hu Hr Hi. step. rewrite Hc. simpl. rewrite Hu. simpl. rewrite Hr. simpl.
  rewrite Hi. simpl. repeat split.
  rewrite !length_app. simpl. lia.
Qed.

End Fallback.

Lemma update_recipe_statements_witness :
  issued (update_recipe {| params_id := "50"; body := full_body "N" "D" "P"; file := None |}
            (Recipes.boot Recipes.toast)).2
  = [(update_sql, [JStr "N"; JStr "D"; JStr "P"; JStr "50"]);
     (insert_sql, [JStr "N"; JStr "D"; JStr "P"])].
Proof.
  exact (@update_recipe_statements Recipes.table Recipes.table_store
           {| params_id := "50"; body := full_body "N" "D" "P"; file := None |}
           (Recipes.boot Recipes.toast) eq_refl).
Defined.

Lemma update_recipe_fallback_rejected_witness :
  leased (update_recipe {| params_id := "1"; body := full_body "N" "D" "P"; file := None |}
            (Script.play [inr {| rows := []; rowCount := 1 |}; inl "disk full"])).2 = 1.
Proof.
  destruct (@update_recipe_fallback_rejected Script.script Script.script_store
              {| params_id := "1"; body := full_body "N" "D" "P"; file := None |}
              (Script.play [inr {| rows := []; rowCount := 1 |}; inl "disk full"])
              {| rows := []; rowCount := 1 |}
              {| Script.up := true; Script.answers := [inl "disk full"] |}
              {| Script.up := true; Script.answers := [] |}
              "disk full" eq_refl eq_refl eq_refl eq_refl) as (_ & _ & Hl & _).
  exact Hl.
Defined.

(** ** The read handlers *)

Section Reading.
Context {db : Type} `{!Store db}.

Ltac step :=
  unfold all_recipes, recipe_by_id, pool_query, console_error, rows_0; simpl.

(** X11.  A GET by id that finds no row answers with status 200, not
    404, and calls [res.send] twice: first with the text that names the
    id, then with [undefined], the first row of an empty result. *)
Theorem recipe_by_id_missing (req : request) (w : world db)
    (result : pg_result) (s' : db) :
  pg_connect (store w) = None ->
  pg_query select_one_sql [JStr (params_id req)] (store w) = (inr result, s') ->
  rows result = [] ->
  (recipe_by_id req w).1
  = [{| reply_status := 200;
        reply_body := SendText ("No recipe found with id " +:+ params_id req) |};
     {| reply_status := 200; reply_body := SendValue JUndefined |}].
Proof.
  intros Hc Hq Hr. step. rewrite Hc, Hq. simpl. by rewrite Hr.
Qed.

(** X12.  A GET by id that finds rows answers once, with the first row
    alone and status 200. *)
Theorem recipe_by_id_found (req : request) (w : world db)
    (result : pg_result) (s' : db) (row : object) (more : list object) :
  pg_connect (store w) = None ->
  pg_query select_one_sql [JStr (params_id req)] (store w) = (inr result, s') ->
  rows result = row :: more ->
  (recipe_by_id req w).1
  = [{| reply_status := 200; reply_body := SendValue (JObj row) |}].
Proof.
  intros Hc Hq Hr. step. rewrite Hc, Hq. simpl. by rewrite Hr.
Qed.

(** X13.  The two read handlers never hold a client of their own and
    send at most one statement, whose text is fixed: the id of a GET by
    id travels as a parameter.  Whenever they log something, which they
    do for an error only, the answer is the fixed 500 text: nothing of
    the error reaches the caller. *)
Theorem reads_keep_pool (req : request) (w : world db) :
  let all := all_recipes req w in
  let one := recipe_by_id req w in
  leased all.2 = leased w /\ leased one.2 = leased w /\
  (issued all.2 = issued w \/
   issued all.2 = (issued w ++ [(select_all_sql, [])])%list) /\
  (issued one.2 = issued w \/
   issued one.2 = (issued w ++ [(select_one_sql, [JStr (params_id req)])])%list) /\
  (console all.2 = console w \/
   all.1 = [{| reply_status := 500; reply_body := SendText "Error getting recipes" |}]) /\
  (console one.2 = console w \/
   one.1 = [{| reply_status := 500; reply_body := SendText "Error getting recipe" |}]).
Proof.
  step.
  destruct (pg_connect (store w)) as [msg|]; simpl.
  { repeat split; auto. }
  destruct (pg_query select_all_sql _ _) as [[msg|r] s1];
    destruct (pg_query select_one_sql _ _) as [[msg'|r'] s2]; simpl;
    repeat split; auto.
Qed.

End Reading.

Lemma recipe_by_id_missing_witness :
  (recipe_by_id (by_id "9") (Script.play [inr {| rows := []; rowCount := 0 |}])).1
  = [{| reply_status := 200; reply_body := SendText "No recipe found with id 9" |};
     {| reply_status := 200; reply_body := SendValue JUndefined |}].
Proof.
  apply (@recipe_by_id_missing Script.script Script.script_store (by_id "9")
           (Script.play [inr {| rows := []; rowCount := 0 |}])
           {| rows := []; rowCount := 0 |}
           {| Script.up := true; Script.answers := [] |});
    reflexivity.
Defined.

Lemma recipe_by_id_found_witness :
  (recipe_by_id (by_id "1")
     (Script.play [inr {| rows := [[("id", JNum 1)]; [("id", JNum 2)]]; rowCount := 2 |}])).1
  = [{| reply_status := 200; reply_body := SendValue (JObj [("id", JNum 1)]) |}].
Proof.
  apply (@recipe_by_id_found Script.script Script.script_store (by_id "1")
           (Script.play [inr {| rows := [[("id", JNum 1)]; [("id", JNum 2)]];
                                rowCount := 2 |}])
           {| rows := [[("id", JNum 1)]; [("id", JNum 2)]]; rowCount := 2 |}
           {| Script.up := true; Script.answers := [] |}
           [("id", JNum 1)] [[("id", JNum 2)]]);
    reflexivity.
Defined.

(** ** More on POST *)

(** X14.  When the store accepts the [INSERT] of a POST and brings the
    new row back, the handler logs the id of that row, gives the client
    back and answers with the fixed 200 text: the id is logged, not
    returned. *)
Theorem create_recipe_inserted {db : Type} `{!Store db}
    (req : request) (w : world db) (result : pg_result) (s' : db)
    (row : object) (more : list object) :
  pg_connect (store w) = None ->
  pg_query insert_sql [get (body req) "name"; get (body req) "description";
                       get (body req) "photo"] (store w)
  = (inr result, s') ->
  rows result = row :: more ->
  create_recipe req w
  = ({| status := 200; sent := "Recipe created successfully" |},
     {| store := s'; leased := leased w;
        issued := issued w ++
          [(insert_sql, [get (body req) "name"; get (body req) "description";
                         get (body req) "photo"])];
        console := console w ++
          [{| line_text := "Inserted with ID:";
              line_args := [LogVal (get row "id")] |}] |}).
Proof.
  intros Hc Hq Hr. rewrite (create_recipe_run req w Hc). simpl.
  rewrite Hq. by rewrite Hr.
Qed.

Lemma create_recipe_inserted_witness :
  console (create_recipe {| params_id := ""; body := full_body "N" "D" "P"; file := None |}
             (Recipes.boot Recipes.toast)).2
  = [{| line_text := "Inserted with ID:"; line_args := [LogVal (JNum 2)] |}].
Proof.
  rewrite (@create_recipe_inserted Recipes.table Recipes.table_store
             {| params_id := ""; body := full_body "N" "D" "P"; file := None |}
             (Recipes.boot Recipes.toast)
             {| rows := [[("id", JNum 2)]]; rowCount := 1 |}
             (Recipes.insert_row {| Recipes.name := "N"; Recipes.description := "D";
                                    Recipes.photo := "P" |} Recipes.toast).2
             [("id", JNum 2)] [] eq_refl eq_refl eq_refl).
  reflexivity.
Defined.



(** ** The upload *)

(** X19.  The PUT and PATCH handlers, which also sit behind
    [upload.single('photo')], never read the uploaded file, and the
    DELETE handler reads neither the file nor the body: requests that
    agree on the id and the body, for DELETE on the id alone, run
    alike. *)
Theorem handlers_ignore_upload {db : Type} `{!Store db}
    (req req' : request) (w : world db) :
  params_id req' = params_id req ->
  (body req' = body req ->
   update_recipe req' w = update_recipe req w /\
   patch_recipe req' w = patch_recipe req w) /\
  delete_recipe req' w = delete_recipe req w.
Proof.
  intros Hid. split.
  - intros Hb. unfold update_recipe, patch_recipe. by rewrite Hid, Hb.
  - unfold delete_recipe. by rewrite Hid.
Qed.

Lemma handlers_ignore_upload_witness :
  delete_recipe {| params_id := "1"; body := [("name", JStr "x")]; file := Some "JFIF" |}
    (Recipes.boot Recipes.toast)
  = delete_recipe (by_id "1") (Recipes.boot Recipes.toast).
Proof.
  destruct (@handlers_ignore_upload Recipes.table Recipes.table_store
              (by_id "1")
              {| params_id := "1"; body := [("name", JStr "x")]; file := Some "JFIF" |}
              (Recipes.boot Recipes.toast) eq_refl) as [_ Hd].
  exact Hd.
Defined.
